(** * ModelVault: the model detail page (src/frontend/Model.tsx)

    A shallow embedding of the [ImageGallery] and [Model] components:
    the index arithmetic of [nextImage] / [previousImage], the keyboard
    listener registered by the gallery's mount effect, and the promise
    chain of [getModels].

    React's rules that the embedding relies on:
    - [useState(init)] reads [init] only when the component instance is
      mounted; later renders of the same instance return the stored state;
    - an element of the same component type at the same place in the tree
      keeps its instance when its props change (there is no [key] on
      [<ImageGallery model={model} />]);
    - an effect with the dependency list [[]] runs once, after the first
      render of the instance, and its cleanup runs when the instance is
      unmounted; the functions it mentions are those of that first render;
    - a state setter of an unmounted instance does nothing. *)

From Stdlib Require Import ZArith QArith List Ascii String Bool Lia.
Import ListNotations.
Local Open Scope string_scope.
Local Open Scope Z_scope.

(** ** JavaScript numbers, as far as the gallery uses them

    [selectedImage] only ever holds an integer or [NaN]: it starts at [0]
    and is changed by adding or subtracting one, adding an array length,
    taking a remainder, or storing an array index.  Array lengths are
    below [2^32], so all these integers are exact in a double. *)

Inductive number : Type :=
| Num (z : Z)
| NaN.

Definition js_add (a b : number) : number :=
  match a, b with
  | Num x, Num y => Num (x + y)
  | _, _ => NaN
  end.

Definition js_sub (a b : number) : number :=
  match a, b with
  | Num x, Num y => Num (x - y)
  | _, _ => NaN
  end.

(** [a % b]: the remainder takes the sign of the dividend, and a zero
    divisor gives [NaN] (nothing is thrown). *)
Definition js_rem (a b : number) : number :=
  match a, b with
  | Num x, Num y => if y =? 0 then NaN else Num (Z.rem x y)
  | _, _ => NaN
  end.

(** [arr[i]]: [undefined] (here [None]) unless [i] is an index of [arr]. *)
Definition js_index {A : Type} (arr : list A) (i : number) : option A :=
  match i with
  | Num z => if z <? 0 then None else nth_error arr (Z.to_nat z)
  | NaN => None
  end.

(** [`${v}`] for a string-or-undefined value. *)
Definition template_of (v : option string) : string :=
  match v with
  | Some s => s
  | None => "undefined"
  end.

(** ** The model record *)

(** Modelled from the spec: the file descriptors of a model record
    ([./bindings] is not part of the sources): a path, a preview
    reference, a hash and a timestamp. *)
Record ModelFile : Type := {
  file_path : string;
  preview_image : string;
  file_hash : string;
  date_added : string
}.

(** Modelled from the spec: the type [DetailedModelResponse] of
    [./bindings]: an ordered sequence of image references, an ordered
    sequence of file descriptors, and the scalar metadata the page reads. *)
Record DetailedModelResponse : Type := {
  title : string;
  author : string;
  license : string;
  origin : string;
  package_name : string;
  images : list string;
  files : list ModelFile
}.

(** [model.images.length] *)
Definition images_length (model : DetailedModelResponse) : number :=
  Num (Z.of_nat (List.length (images model))).

(** ** ImageGallery: the functions of one render

    A render of [ImageGallery] with the prop [model] creates the closures
    below.  [nextImage] and [previousImage] hand an updater to
    [setSelectedImage]; the updater is what these definitions return. *)

Definition updater : Type := number -> number.

Definition nextImage (model : DetailedModelResponse) : updater :=
  fun prev => js_rem (js_add prev (Num 1)) (images_length model).

Definition previousImage (model : DetailedModelResponse) : updater :=
  fun prev =>
    js_rem (js_add (js_sub prev (Num 1)) (images_length model))
           (images_length model).

(** [handleKeyDown], created by the mount effect: which updater the key
    sends to [setSelectedImage], if any. *)
Definition handleKeyDown (model : DetailedModelResponse) (key : string)
  : option updater :=
  if String.eqb key "ArrowLeft" then Some (previousImage model)
  else if String.eqb key "ArrowRight" then Some (nextImage model)
  else None.

(** The [onClick] handlers of the thumbnail strip,
    [model.images.map((img, index) => ... setSelectedImage(index))]:
    one per image, each storing its own index. *)
Definition thumbnail_onClick (model : DetailedModelResponse) : list updater :=
  map (fun index => fun _ : number => Num (Z.of_nat index))
      (seq 0 (List.length (images model))).

(** ** The page at run time *)

(** What [console.error] and the promise chain carry around. *)
Inductive JsError : Type :=
| TypeError (msg : string)
| Error (msg : string)
| SyntaxError (msg : string).

(** A mounted [ImageGallery]: [inst] tells instances apart, [selectedImage]
    is its [useState<number>(0)]. *)
Record ImageGalleryInstance : Type := {
  inst : nat;
  selectedImage : number
}.

(** A [keydown] listener on [window]: the [handleKeyDown] that the mount
    effect of instance [owner] created.  It calls the [nextImage] and
    [previousImage] of that instance's first render, which read the
    [model] prop of that render: [closure_model]. *)
Record KeyListener : Type := {
  owner : nat;
  closure_model : DetailedModelResponse
}.

(** The mounted [Model] component: [model] is still [undefined] and the
    fragment is empty, or [model] is set and [{model && (...)}] shows the
    gallery. *)
Inductive ModelPage : Type :=
| NoModel
| Loaded (model : DetailedModelResponse) (gallery : ImageGalleryInstance).

Record World : Type := {
  page : option ModelPage;            (* [None]: [Model] is not mounted *)
  window_keydown : list KeyListener;
  console : list (string * JsError);
  fresh : nat                         (* next instance identity *)
}.

Definition with_page (w : World) (p : option ModelPage) : World :=
  {| page := p;
     window_keydown := window_keydown w;
     console := console w;
     fresh := fresh w |}.

Definition initial : World :=
  {| page := Some NoModel; window_keydown := []; console := []; fresh := 0 |}.

(** The index the gallery shows, when there is a gallery. *)
Definition selected (w : World) : option number :=
  match page w with
  | Some (Loaded _ g) => Some (selectedImage g)
  | _ => None
  end.

(** The model the page shows, when it shows one. *)
Definition shown_model (w : World) : option DetailedModelResponse :=
  match page w with
  | Some (Loaded m _) => Some m
  | _ => None
  end.

(** [setSelectedImage(u)] of instance [target]. *)
Definition setSelectedImage (target : nat) (u : updater) (w : World) : World :=
  match page w with
  | Some (Loaded m g) =>
      if Nat.eqb (inst g) target
      then with_page w
             (Some (Loaded m {| inst := inst g;
                                selectedImage := u (selectedImage g) |}))
      else w
  | _ => w
  end.

Definition addEventListener (l : KeyListener) (w : World) : World :=
  {| page := page w;
     window_keydown := window_keydown w ++ [l];
     console := console w;
     fresh := fresh w |}.

(** [removeEventListener] with the [handleKeyDown] of instance [target]. *)
Definition removeEventListener (target : nat) (w : World) : World :=
  {| page := page w;
     window_keydown :=
       filter (fun l => negb (Nat.eqb (owner l) target)) (window_keydown w);
     console := console w;
     fresh := fresh w |}.

(** First render of a new [ImageGallery] with the prop [model], followed
    by its mount effect. *)
Definition mount_ImageGallery (model : DetailedModelResponse) (w : World)
  : World :=
  let g := {| inst := fresh w; selectedImage := Num 0 |} in
  addEventListener {| owner := fresh w; closure_model := model |}
    {| page := Some (Loaded model g);
       window_keydown := window_keydown w;
       console := console w;
       fresh := S (fresh w) |}.

(** [setModel(response_models)] and the render that follows: a gallery
    that is already there is rendered again with the new prop. *)
Definition setModel (response_models : DetailedModelResponse) (w : World)
  : World :=
  match page w with
  | None => w
  | Some NoModel => mount_ImageGallery response_models w
  | Some (Loaded _ g) => with_page w (Some (Loaded response_models g))
  end.

Definition console_error (label : string) (error : JsError) (w : World)
  : World :=
  {| page := page w;
     window_keydown := window_keydown w;
     console := console w ++ [(label, error)];
     fresh := fresh w |}.

(** [Model] leaves the tree; the gallery's effect cleanup runs. *)
Definition unmount_Model (w : World) : World :=
  match page w with
  | None => w
  | Some NoModel => with_page w None
  | Some (Loaded _ g) => with_page (removeEventListener (inst g) w) None
  end.

Definition mount_Model (w : World) : World :=
  match page w with
  | None => with_page w (Some NoModel)
  | Some _ => w
  end.

(** *** Promises *)

Inductive settled (A : Type) : Type :=
| Fulfilled (a : A)
| Rejected (e : JsError).
Arguments Fulfilled {A} a.
Arguments Rejected {A} e.

(** A promise chain, run when everything it waits for has arrived: it
    changes the world and settles. *)
Definition Promise (A : Type) : Type := World -> World * settled A.

Definition resolve {A : Type} (a : A) : Promise A := fun w => (w, Fulfilled a).
Definition throw {A : Type} (e : JsError) : Promise A := fun w => (w, Rejected e).

Definition then_ {A B : Type} (p : Promise A) (f : A -> Promise B)
  : Promise B :=
  fun w =>
    match p w with
    | (w', Fulfilled a) => f a w'
    | (w', Rejected e) => (w', Rejected e)
    end.

Definition catch_ {A : Type} (p : Promise A) (h : JsError -> Promise A)
  : Promise A :=
  fun w =>
    match p w with
    | (w', Fulfilled a) => (w', Fulfilled a)
    | (w', Rejected e) => h e w'
    end.

Notation "p '.then' f" := (then_ p f) (at level 50, left associativity).
Notation "p '.catch' h" := (catch_ p h) (at level 50, left associativity).

(** What the network does with the [GET].  A body that parses is taken
    to be a record of the type the code declares for it
    ([response_models: DetailedModelResponse]); a body that parses to
    something else ([null], [{}]) is not an input of this model. *)
Inductive JsonBody : Type :=
| ValidJson (value : DetailedModelResponse)
| InvalidJson.

Record Response : Type := {
  ok : bool;
  body : JsonBody
}.

Inductive FetchOutcome : Type :=
| NetworkError
| Responds (response : Response).

Definition fetch (o : FetchOutcome) : Promise Response :=
  match o with
  | NetworkError => throw (TypeError "Failed to fetch")
  | Responds response => resolve response
  end.

Definition json (response : Response) : Promise DetailedModelResponse :=
  match body response with
  | ValidJson value => resolve value
  | InvalidJson => throw (SyntaxError "Unexpected token")
  end.

(** The chain that [getModels] starts; [o] is what the network answers. *)
Definition getModels (o : FetchOutcome) : Promise unit :=
  (fetch o)
    .then (fun response =>
             if negb (ok response)
             then throw (Error "Network response was not ok")
             else json response)
    .then (fun response_models w => (setModel response_models w, Fulfilled tt))
    .catch (fun error w => (console_error "Fetch error:" error w, Fulfilled tt)).

(** The three ways the fetch fails: no answer, a status outside 2xx, a
    body that is not JSON. *)
Definition fetch_fails (o : FetchOutcome) : bool :=
  match o with
  | NetworkError => true
  | Responds response =>
      negb (ok response) ||
      match body response with InvalidJson => true | ValidJson _ => false end
  end.

Definition success (m : DetailedModelResponse) : FetchOutcome :=
  Responds {| ok := true; body := ValidJson m |}.

(** *** Events

    A chain that settles is taken to be one that the [Model] on screen
    started: the events do not tell chains apart by the instance whose
    [setModel] they call.  From [initial] and up to the first
    [LeaveRoute] there is one [Model] instance and every chain is
    its own. *)

Inductive event : Type :=
| EnterRoute                       (* the router mounts [Model] *)
| LeaveRoute                       (* the router unmounts [Model] *)
| FetchSettled (o : FetchOutcome)  (* a [getModels] chain settles *)
| ClickPreviousButton
| ClickNextButton
| ClickThumbnail (index : nat)
| KeyDown (key : string).

(** [window] calls every registered listener with the key. *)
Definition dispatch_keydown (key : string) (w : World) : World :=
  fold_left
    (fun w' l =>
       match handleKeyDown (closure_model l) key with
       | Some u => setSelectedImage (owner l) u w'
       | None => w'
       end)
    (window_keydown w) w.

(** The buttons carry the handlers of the latest render, which read the
    current [model] prop; without a gallery there is nothing to click. *)
Definition click (handler : DetailedModelResponse -> option updater)
    (w : World) : World :=
  match page w with
  | Some (Loaded m g) =>
      match handler m with
      | Some u => setSelectedImage (inst g) u w
      | None => w
      end
  | _ => w
  end.

Definition step (w : World) (e : event) : World :=
  match e with
  | EnterRoute => mount_Model w
  | LeaveRoute => unmount_Model w
  | FetchSettled o => fst (getModels o w)
  | ClickPreviousButton => click (fun m => Some (previousImage m)) w
  | ClickNextButton => click (fun m => Some (nextImage m)) w
  | ClickThumbnail index =>
      click (fun m => nth_error (thumbnail_onClick m) index) w
  | KeyDown key => dispatch_keydown key w
  end.

Definition run (w : World) (es : list event) : World := fold_left step es w.

(** The operations of the gallery itself: buttons, thumbnails, keys. *)
Definition gallery_event (e : event) : bool :=
  match e with
  | ClickPreviousButton | ClickNextButton | ClickThumbnail _ | KeyDown _ => true
  | _ => false
  end.

(** *** What is on screen *)

Section Render.

(** [BACKEND_BASE_URL] of [./lib/api]. *)
Variable BACKEND_BASE_URL : string.

Record GalleryView : Type := {
  main_image_src : string;
  thumbnail_srcs : list string
}.

Definition ImageGallery_render (model : DetailedModelResponse)
    (selectedImage : number) : GalleryView :=
  {| main_image_src :=
       BACKEND_BASE_URL ++ template_of (js_index (images model) selectedImage);
     thumbnail_srcs := map (fun img => BACKEND_BASE_URL ++ img) (images model) |}.

(** [None] is the empty fragment. *)
Definition Model_render (w : World) : option GalleryView :=
  match page w with
  | Some (Loaded m g) => Some (ImageGallery_render m (selectedImage g))
  | _ => None
  end.

End Render.

(** *** Shapes of the world used in the statements *)

(** The page shows [m] in gallery [g], and the only [keydown] listener is
    the one of [g], made in a render whose [model] prop was [m0]. *)
Definition gallery_mounted (w : World) (m m0 : DetailedModelResponse)
    (g : ImageGalleryInstance) : Prop :=
  page w = Some (Loaded m g) /\
  window_keydown w = [{| owner := inst g; closure_model := m0 |}].

(** Listeners belong to the gallery on screen, one per gallery. *)
Definition listeners_scoped (w : World) : Prop :=
  match page w with
  | Some (Loaded _ g) =>
      exists m0, window_keydown w = [{| owner := inst g; closure_model := m0 |}]
  | _ => window_keydown w = []
  end.

Definition is_LeaveRoute (e : event) : bool :=
  match e with
  | LeaveRoute => true
  | _ => false
  end.

(** *** Sample records *)

Definition sample (imgs : list string) : DetailedModelResponse :=
  {| title := "Benchy"; author := "fidoriel"; license := "MIT";
     origin := "https://example.org/benchy"; package_name := "benchy";
     images := imgs; files := [] |}.

Definition ABC : DetailedModelResponse := sample ["/A.png"; "/B.png"; "/C.png"].

Definition FIVE : DetailedModelResponse :=
  sample ["/1.png"; "/2.png"; "/3.png"; "/4.png"; "/5.png"].

Definition ONE : DetailedModelResponse := sample ["/only.png"].

Definition EMPTY : DetailedModelResponse := sample [].

(** ** The rest of the gallery and the file list *)

(** [a === b] on numbers: [NaN] is equal to nothing, itself included. *)
Definition js_strict_eq (a b : number) : bool :=
  match a, b with
  | Num x, Num y => x =? y
  | _, _ => false
  end.

(** Which thumbnails carry the ring: [index === selectedImage], one
    answer per image. *)
Definition thumbnail_ring (model : DetailedModelResponse)
    (selectedImage : number) : list bool :=
  map (fun index => js_strict_eq (Num (Z.of_nat index)) selectedImage)
      (seq 0 (List.length (images model))).

(** What the scroll effect reads from the DOM.  [offsetLeft] and
    [offsetWidth] are integers; halves of integers are exact in a double,
    so the effect's arithmetic is the one of the rationals. *)
Record HTMLElement : Type := {
  offsetLeft : Z;
  offsetWidth : Z
}.

Record ThumbnailsContainer : Type := {
  container_offsetWidth : Z;
  children : list HTMLElement
}.

(** The effect that scrolls the selected thumbnail into view: the [left]
    it hands to [scrollTo], or [None] when it returns early.
    [thumbnailsRef_current] is [thumbnailsRef.current], [None] for
    [null]. *)
Definition scroll_selected_into_view
    (thumbnailsRef_current : option ThumbnailsContainer)
    (selectedImage : number) : option Q :=
  match thumbnailsRef_current with
  | None => None
  | Some thumbnailsContainer =>
      match js_index (children thumbnailsContainer) selectedImage with
      | None => None
      | Some selectedThumbnail =>
          Some (inject_Z (offsetLeft selectedThumbnail)
                - inject_Z (container_offsetWidth thumbnailsContainer) / 2
                + inject_Z (offsetWidth selectedThumbnail) / 2)%Q
      end
  end.

(** [s.split(sep)] for a separator of one character: the pieces between
    the separators, never an empty array. *)
Fixpoint split (sep : ascii) (s : string) : list string :=
  match s with
  | EmptyString => [EmptyString]
  | String c rest =>
      if Ascii.eqb c sep then EmptyString :: split sep rest
      else match split sep rest with
           | piece :: pieces => String c piece :: pieces
           | [] => [String c EmptyString]   (* never taken *)
           end
  end.

(** [arr.pop()]: the last element, [undefined] (here [None]) for an
    empty array. *)
Fixpoint pop {A : Type} (arr : list A) : option A :=
  match arr with
  | [] => None
  | x :: rest =>
      match rest with
      | [] => Some x
      | _ :: _ => pop rest
      end
  end.

(** The [onClick] of a file's download button:
    [saveAs(BACKEND_BASE_URL + file.file_path,
            file.file_path.split("/").pop())],
    as the pair of the two arguments. *)
Definition FileList_download (BACKEND_BASE_URL : string) (file : ModelFile)
  : string * option string :=
  (BACKEND_BASE_URL ++ file_path file, pop (split "/" (file_path file))).

(** Does [c] occur in [s]? *)
Fixpoint occurs (c : ascii) (s : string) : bool :=
  match s with
  | EmptyString => false
  | String c' rest => Ascii.eqb c' c || occurs c rest
  end.

(** *** One mounted gallery, event by event *)

(** The record a fetch delivers, if it delivers one. *)
Definition fetched (o : FetchOutcome) : option DetailedModelResponse :=
  match o with
  | NetworkError => None
  | Responds response =>
      if ok response
      then match body response with
           | ValidJson value => Some value
           | InvalidJson => None
           end
      else None
  end.

(** For a gallery that shows [m] and whose listener was made for [m0]:
    the index and the model after an event that does not leave the
    page. *)
Definition index_after (m m0 : DetailedModelResponse) (e : event)
    (s : number) : number :=
  match e with
  | ClickPreviousButton => previousImage m s
  | ClickNextButton => nextImage m s
  | ClickThumbnail index =>
      match nth_error (thumbnail_onClick m) index with
      | Some u => u s
      | None => s
      end
  | KeyDown key =>
      match handleKeyDown m0 key with
      | Some u => u s
      | None => s
      end
  | _ => s
  end.

Definition model_after (m : DetailedModelResponse) (e : event)
  : DetailedModelResponse :=
  match e with
  | FetchSettled o =>
      match fetched o with
      | Some m' => m'
      | None => m
      end
  | _ => m
  end.


(** An index that is [NaN] or a natural number. *)
Definition not_negative (s : number) : Prop :=
  match s with
  | Num i => 0 <= i
  | NaN => True
  end.

Definition has_images (m : DetailedModelResponse) : Prop :=
  images m <> [].

Definition delivers (P : DetailedModelResponse -> Prop) (e : event) : Prop :=
  match e with
  | FetchSettled o =>
      match fetched o with
      | Some m => P m
      | None => True
      end
  | _ => True
  end.

(** More sample data. *)
Definition strip_ABC : ThumbnailsContainer :=
  {| container_offsetWidth := 300;
     children := [ {| offsetLeft := 32; offsetWidth := 80 |};
                   {| offsetLeft := 120; offsetWidth := 80 |};
                   {| offsetLeft := 208; offsetWidth := 80 |} ] |}.

Definition benchy_stl : ModelFile :=
  {| file_path := "/3d/benchy/files/benchy.stl";
     preview_image := "/cache/benchy.png";
     file_hash := "9f86d081";
     date_added := "2024-11-02" |}.

(** ** Index arithmetic *)

Lemma images_length_pos (model : DetailedModelResponse) :
  images model <> [] -> 0 < Z.of_nat (List.length (images model)).
Proof.
  destruct (images model); [congruence | cbn [List.length]; lia].
Qed.

Lemma nextImage_num (model : DetailedModelResponse) (i : Z) :
  0 < Z.of_nat (List.length (images model)) ->
  0 <= i ->
  nextImage model (Num i) = Num ((i + 1) mod Z.of_nat (List.length (images model))).
Proof.
  intros Hn Hi. unfold nextImage, images_length, js_add, js_rem.
  destruct (Z.eqb_spec (Z.of_nat (List.length (images model))) 0) as [E | _]; [lia |].
  now rewrite Z.rem_mod_nonneg by lia.
Qed.

Lemma previousImage_num (model : DetailedModelResponse) (i : Z) :
  0 < Z.of_nat (List.length (images model)) ->
  0 <= i ->
  previousImage model (Num i) =
  Num ((i - 1) mod Z.of_nat (List.length (images model))).
Proof.
  intros Hn Hi. unfold previousImage, images_length, js_add, js_sub, js_rem.
  destruct (Z.eqb_spec (Z.of_nat (List.length (images model))) 0) as [E | _]; [lia |].
  rewrite Z.rem_mod_nonneg by lia.
  f_equal.
  replace (i - 1 + Z.of_nat (List.length (images model)))
    with (i - 1 + 1 * Z.of_nat (List.length (images model))) by lia.
  now rewrite Z.mod_add by lia.
Qed.

Lemma nextImage_in_range (model : DetailedModelResponse) (i : Z) :
  0 < Z.of_nat (List.length (images model)) ->
  0 <= i ->
  exists j, nextImage model (Num i) = Num j /\
            0 <= j < Z.of_nat (List.length (images model)).
Proof.
  intros Hn Hi. rewrite nextImage_num by lia.
  eexists. split; [reflexivity | now apply Z.mod_pos_bound].
Qed.

Lemma previousImage_in_range (model : DetailedModelResponse) (i : Z) :
  0 < Z.of_nat (List.length (images model)) ->
  0 <= i ->
  exists j, previousImage model (Num i) = Num j /\
            0 <= j < Z.of_nat (List.length (images model)).
Proof.
  intros Hn Hi. rewrite previousImage_num by lia.
  eexists. split; [reflexivity | now apply Z.mod_pos_bound].
Qed.

(** C2: with [n > 0] images and [0 <= i < n], [nextImage] moves from [i]
    to [i + 1], except from the last image [n - 1], where it wraps to [0];
    the new index is again in [[0, n)]. *)
Theorem nextImage_advances (model : DetailedModelResponse) (i : Z) :
  let n := Z.of_nat (List.length (images model)) in
  0 < n ->
  0 <= i < n ->
  nextImage model (Num i) = Num (if i =? n - 1 then 0 else i + 1) /\
  exists j, nextImage model (Num i) = Num j /\ 0 <= j < n.
Proof.
  intros n Hn Hi. subst n.
  rewrite nextImage_num by lia.
  destruct (Z.eqb_spec i (Z.of_nat (List.length (images model)) - 1)) as [E | E].
  - replace (i + 1) with (Z.of_nat (List.length (images model))) by lia.
    rewrite Z.mod_same by lia.
    split; [reflexivity | exists 0; split; [reflexivity | lia]].
  - rewrite Z.mod_small by lia.
    split; [reflexivity | exists (i + 1); split; [reflexivity | lia]].
Qed.

(** C3: with [n > 0] images and [0 <= i < n], [previousImage] moves from
    [i] to [i - 1], except from the first image, where it wraps to
    [n - 1]; the new index is again in [[0, n)]. *)
Theorem previousImage_retreats (model : DetailedModelResponse) (i : Z) :
  let n := Z.of_nat (List.length (images model)) in
  0 < n ->
  0 <= i < n ->
  previousImage model (Num i) = Num (if i =? 0 then n - 1 else i - 1) /\
  exists j, previousImage model (Num i) = Num j /\ 0 <= j < n.
Proof.
  intros n Hn Hi. subst n.
  rewrite previousImage_num by lia.
  set (n := Z.of_nat (List.length (images model))) in *.
  destruct (Z.eqb_spec i 0) as [E | E].
  - subst i.
    replace (0 - 1) with (n - 1 + (-1) * n) by lia.
    rewrite Z.mod_add, Z.mod_small by lia.
    split; [reflexivity | exists (n - 1); split; [reflexivity | lia]].
  - rewrite Z.mod_small by lia.
    split; [reflexivity | exists (i - 1); split; [reflexivity | lia]].
Qed.

(** C5: with [n >= 1] images and [0 <= i < n], [previousImage] undoes
    [nextImage] and [nextImage] undoes [previousImage]. *)
Theorem next_previous_inverse (model : DetailedModelResponse) (i : Z) :
  let n := Z.of_nat (List.length (images model)) in
  1 <= n ->
  0 <= i < n ->
  previousImage model (nextImage model (Num i)) = Num i /\
  nextImage model (previousImage model (Num i)) = Num i.
Proof.
  intros n Hn Hi. subst n.
  set (n := Z.of_nat (List.length (images model))) in *.
  assert (Hpos : 0 < n) by lia.
  split.
  - rewrite nextImage_num by lia. fold n.
    rewrite previousImage_num by (try apply Z.mod_pos_bound; lia). fold n.
    rewrite Zminus_mod_idemp_l.
    replace (i + 1 - 1) with i by lia.
    now rewrite Z.mod_small by lia.
  - rewrite previousImage_num by lia. fold n.
    rewrite nextImage_num by (try apply Z.mod_pos_bound; lia). fold n.
    rewrite Zplus_mod_idemp_l.
    replace (i - 1 + 1) with i by lia.
    now rewrite Z.mod_small by lia.
Qed.

Lemma nextImage_iter (model : DetailedModelResponse) (i : Z) (k : nat) :
  0 < Z.of_nat (List.length (images model)) ->
  0 <= i < Z.of_nat (List.length (images model)) ->
  Nat.iter k (nextImage model) (Num i) =
  Num ((i + Z.of_nat k) mod Z.of_nat (List.length (images model))).
Proof.
  intros Hn Hi. induction k as [| k IH].
  - cbn. now rewrite Z.add_0_r, Z.mod_small by lia.
  - rewrite Nat.iter_succ, IH.
    rewrite nextImage_num by (try apply Z.mod_pos_bound; lia).
    rewrite Zplus_mod_idemp_l. f_equal. f_equal. lia.
Qed.

(** C6: with [n >= 1] images and [0 <= i < n], [n] times [nextImage]
    from [i] ends at [i]. *)
Theorem nextImage_full_cycle (model : DetailedModelResponse) (i : Z) :
  let n := List.length (images model) in
  (1 <= n)%nat ->
  0 <= i < Z.of_nat n ->
  Nat.iter n (nextImage model) (Num i) = Num i.
Proof.
  intros n Hn Hi. subst n.
  rewrite nextImage_iter by lia.
  replace (i + Z.of_nat (List.length (images model)))
    with (i + 1 * Z.of_nat (List.length (images model))) by lia.
  now rewrite Z.mod_add, Z.mod_small by lia.
Qed.

(** ** The gallery on screen *)

Lemma setSelectedImage_own (w : World) (m : DetailedModelResponse)
    (g : ImageGalleryInstance) (u : updater) :
  page w = Some (Loaded m g) ->
  setSelectedImage (inst g) u w =
  with_page w (Some (Loaded m {| inst := inst g;
                                 selectedImage := u (selectedImage g) |})).
Proof.
  intros Hp. unfold setSelectedImage. now rewrite Hp, Nat.eqb_refl.
Qed.

Lemma click_own (w : World) (m : DetailedModelResponse)
    (g : ImageGalleryInstance) (handler : DetailedModelResponse -> option updater) :
  page w = Some (Loaded m g) ->
  click handler w =
  match handler m with
  | Some u => setSelectedImage (inst g) u w
  | None => w
  end.
Proof.
  intros Hp. unfold click. now rewrite Hp.
Qed.

Lemma dispatch_keydown_own (w : World) (m m0 : DetailedModelResponse)
    (g : ImageGalleryInstance) (key : string) :
  gallery_mounted w m m0 g ->
  dispatch_keydown key w =
  match handleKeyDown m0 key with
  | Some u => setSelectedImage (inst g) u w
  | None => w
  end.
Proof.
  intros [_ Hl]. unfold dispatch_keydown. now rewrite Hl.
Qed.

Lemma dispatch_keydown_no_listener (w : World) (key : string) :
  window_keydown w = [] -> dispatch_keydown key w = w.
Proof.
  intros Hl. unfold dispatch_keydown. now rewrite Hl.
Qed.

Lemma gallery_mounted_select (w : World) (m m0 : DetailedModelResponse)
    (g : ImageGalleryInstance) (u : updater) :
  gallery_mounted w m m0 g ->
  gallery_mounted (setSelectedImage (inst g) u w) m m0
    {| inst := inst g; selectedImage := u (selectedImage g) |}.
Proof.
  intros [Hp Hl]. rewrite (setSelectedImage_own w m g u Hp).
  split; [reflexivity | exact Hl].
Qed.

(** The buttons apply [nextImage] and [previousImage] of the model on
    screen to the index on screen. *)
Lemma selected_ClickNextButton (w : World) (m : DetailedModelResponse)
    (g : ImageGalleryInstance) :
  page w = Some (Loaded m g) ->
  selected (step w ClickNextButton) = Some (nextImage m (selectedImage g)).
Proof.
  intros Hp. cbn [step]. rewrite (click_own w m g _ Hp).
  now rewrite (setSelectedImage_own w m g _ Hp).
Qed.

Lemma selected_ClickPreviousButton (w : World) (m : DetailedModelResponse)
    (g : ImageGalleryInstance) :
  page w = Some (Loaded m g) ->
  selected (step w ClickPreviousButton)
  = Some (previousImage m (selectedImage g)).
Proof.
  intros Hp. cbn [step]. rewrite (click_own w m g _ Hp).
  now rewrite (setSelectedImage_own w m g _ Hp).
Qed.

Lemma thumbnail_onClick_nth (m : DetailedModelResponse) (index : nat)
    (u : updater) :
  nth_error (thumbnail_onClick m) index = Some u ->
  (index < List.length (images m))%nat /\
  forall prev, u prev = Num (Z.of_nat index).
Proof.
  intros H.
  assert (Hlt : (index < List.length (thumbnail_onClick m))%nat)
    by (apply nth_error_Some; rewrite H; discriminate).
  unfold thumbnail_onClick in *. rewrite length_map, length_seq in Hlt.
  split; [exact Hlt |].
  rewrite nth_error_map, nth_error_seq in H.
  apply Nat.ltb_lt in Hlt. rewrite Hlt in H. cbn in H.
  injection H as <-. reflexivity.
Qed.

(** *** The promise chain *)

Lemma getModels_success (m : DetailedModelResponse) (w : World) :
  getModels (success m) w = (setModel m w, Fulfilled tt).
Proof. reflexivity. Qed.

Lemma getModels_fails (o : FetchOutcome) (w : World) :
  fetch_fails o = true ->
  exists error, getModels o w = (console_error "Fetch error:" error w, Fulfilled tt).
Proof.
  destruct o as [| [ok b]]; cbn.
  - intros _. now eexists.
  - destruct ok; cbn.
    + destruct b; [discriminate | intros _; now eexists].
    + intros _. now eexists.
Qed.

Lemma fetch_succeeds (o : FetchOutcome) :
  fetch_fails o = false -> exists m, o = success m.
Proof.
  destruct o as [| [ok b]]; cbn; [discriminate |].
  destruct ok, b; cbn; try discriminate.
  intros _. now eexists.
Qed.

(** *** What stays while the gallery is mounted *)

Lemma step_gallery_mounted (w : World) (m m0 : DetailedModelResponse)
    (g : ImageGalleryInstance) (e : event) :
  gallery_mounted w m m0 g ->
  is_LeaveRoute e = false ->
  exists m' s,
    gallery_mounted (step w e) m' m0 {| inst := inst g; selectedImage := s |}.
Proof.
  intros Hm He.
  assert (Hsame : gallery_mounted w m m0
                    {| inst := inst g; selectedImage := selectedImage g |})
    by (now destruct g).
  destruct Hm as [Hp Hl].
  assert (Hclick : forall handler, exists m' s,
             gallery_mounted (click handler w) m' m0
               {| inst := inst g; selectedImage := s |}).
  { intros handler. rewrite (click_own w m g handler Hp).
    destruct (handler m) as [u |].
    - exists m, (u (selectedImage g)).
      now apply gallery_mounted_select.
    - now exists m, (selectedImage g). }
  destruct e; cbn [step]; try discriminate; try apply Hclick.
  - (* EnterRoute *)
    unfold mount_Model. rewrite Hp. now exists m, (selectedImage g).
  - (* FetchSettled *)
    destruct (fetch_fails o) eqn:Ho.
    + destruct (getModels_fails o w Ho) as [error ->]. cbn [fst].
      exists m, (selectedImage g). destruct Hsame as [Hp' Hl']. now split.
    + destruct (fetch_succeeds o Ho) as [m' ->].
      rewrite getModels_success. cbn [fst]. unfold setModel. rewrite Hp.
      exists m', (selectedImage g). split; cbn; [now destruct g | exact Hl].
  - (* KeyDown *)
    rewrite (dispatch_keydown_own w m m0 g key (conj Hp Hl)).
    destruct (handleKeyDown m0 key) as [u |].
    + exists m, (u (selectedImage g)). now apply gallery_mounted_select.
    + now exists m, (selectedImage g).
Qed.

Lemma run_gallery_mounted (es : list event) :
  forall (w : World) (m m0 : DetailedModelResponse) (g : ImageGalleryInstance),
    gallery_mounted w m m0 g ->
    forallb (fun e => negb (is_LeaveRoute e)) es = true ->
    exists m' s,
      gallery_mounted (run w es) m' m0 {| inst := inst g; selectedImage := s |}.
Proof.
  induction es as [| e es IH]; intros w m m0 g Hm Hes.
  - exists m, (selectedImage g). now destruct g.
  - cbn in Hes. apply andb_prop in Hes as [He Hes].
    apply negb_true_iff in He.
    destruct (step_gallery_mounted w m m0 g e Hm He) as (m1 & s1 & H1).
    cbn [run fold_left]. fold (run (step w e) es).
    exact (IH _ _ _ _ H1 Hes).
Qed.

Lemma mount_gallery_mounted (w : World) (m : DetailedModelResponse) :
  page w = Some NoModel ->
  window_keydown w = [] ->
  gallery_mounted (step w (FetchSettled (success m))) m m
    {| inst := fresh w; selectedImage := Num 0 |}.
Proof.
  intros Hp Hl. cbn [step]. rewrite getModels_success. cbn [fst].
  unfold setModel. rewrite Hp. unfold mount_ImageGallery, addEventListener.
  split; cbn; [reflexivity | now rewrite Hl].
Qed.

(** *** Listeners never outlive their gallery *)

Lemma step_listeners_scoped (w : World) (e : event) :
  listeners_scoped w -> listeners_scoped (step w e).
Proof.
  unfold listeners_scoped. intros Hw.
  destruct (page w) as [[| m g] |] eqn:Hp.
  - (* no model yet *)
    destruct e; cbn [step];
      try (unfold click; rewrite Hp; now rewrite Hp).
    + unfold mount_Model. rewrite Hp. now rewrite Hp.
    + unfold unmount_Model. now rewrite Hp.
    + destruct (fetch_fails o) eqn:Ho.
      * destruct (getModels_fails o w Ho) as [error ->]. cbn. now rewrite Hp.
      * destruct (fetch_succeeds o Ho) as [m' ->].
        rewrite getModels_success. cbn [fst]. unfold setModel. rewrite Hp.
        cbn. rewrite Hw. now eexists.
    + rewrite dispatch_keydown_no_listener by exact Hw. now rewrite Hp.
  - (* a gallery is on screen *)
    destruct Hw as [m0 Hl].
    destruct (is_LeaveRoute e) eqn:He.
    + destruct e; try discriminate. cbn [step]. unfold unmount_Model.
      rewrite Hp. cbn. rewrite Hl. cbn. now rewrite Nat.eqb_refl.
    + destruct (step_gallery_mounted w m m0 g e (conj Hp Hl) He)
        as (m' & s & Hp' & Hl').
      rewrite Hp'. now exists m0.
  - (* [Model] is not mounted *)
    destruct e; cbn [step];
      try (unfold click; rewrite Hp; now rewrite Hp).
    + unfold mount_Model. rewrite Hp. now cbn.
    + unfold unmount_Model. now rewrite Hp, Hp.
    + destruct (fetch_fails o) eqn:Ho.
      * destruct (getModels_fails o w Ho) as [error ->]. cbn. now rewrite Hp.
      * destruct (fetch_succeeds o Ho) as [m' ->].
        rewrite getModels_success. cbn [fst]. unfold setModel.
        now rewrite Hp, Hp.
    + rewrite dispatch_keydown_no_listener by exact Hw. now rewrite Hp.
Qed.

Lemma run_listeners_scoped (es : list event) :
  forall w : World, listeners_scoped w -> listeners_scoped (run w es).
Proof.
  induction es as [| e es IH]; intros w Hw; [exact Hw |].
  cbn [run fold_left]. fold (run (step w e) es).
  apply IH. now apply step_listeners_scoped.
Qed.

Lemma reachable_listeners_scoped (es : list event) :
  listeners_scoped (run initial es).
Proof.
  apply run_listeners_scoped. reflexivity.
Qed.

(** ** Selection stays in range *)

Lemma step_in_range (w : World) (model : DetailedModelResponse)
    (g : ImageGalleryInstance) (e : event) :
  1 <= Z.of_nat (List.length (images model)) ->
  gallery_mounted w model model g ->
  (exists i, selectedImage g = Num i /\
             0 <= i < Z.of_nat (List.length (images model))) ->
  gallery_event e = true ->
  exists g',
    gallery_mounted (step w e) model model g' /\
    exists i, selectedImage g' = Num i /\
              0 <= i < Z.of_nat (List.length (images model)).
Proof.
  intros Hn Hm (i & Hsel & Hi) He.
  assert (Hstay : exists g', gallery_mounted w model model g' /\
            exists i, selectedImage g' = Num i /\
                      0 <= i < Z.of_nat (List.length (images model)))
    by (exists g; split; [exact Hm | now exists i]).
  assert (Hupd : forall u j,
             u (selectedImage g) = Num j ->
             0 <= j < Z.of_nat (List.length (images model)) ->
             exists g',
               gallery_mounted (setSelectedImage (inst g) u w) model model g' /\
               exists i, selectedImage g' = Num i /\
                         0 <= i < Z.of_nat (List.length (images model))).
  { intros u j Hu Hj.
    exists {| inst := inst g; selectedImage := u (selectedImage g) |}.
    split; [now apply gallery_mounted_select | now exists j]. }
  assert (Hnext : exists j, nextImage model (selectedImage g) = Num j /\
                            0 <= j < Z.of_nat (List.length (images model)))
    by (rewrite Hsel; apply nextImage_in_range; lia).
  assert (Hprev : exists j, previousImage model (selectedImage g) = Num j /\
                            0 <= j < Z.of_nat (List.length (images model)))
    by (rewrite Hsel; apply previousImage_in_range; lia).
  destruct Hnext as (jn & Hjn & Hjn'). destruct Hprev as (jp & Hjp & Hjp').
  destruct e; try discriminate; cbn [step].
  - rewrite (click_own w model g _ (proj1 Hm)). now apply (Hupd _ jp).
  - rewrite (click_own w model g _ (proj1 Hm)). now apply (Hupd _ jn).
  - rewrite (click_own w model g _ (proj1 Hm)).
    destruct (nth_error (thumbnail_onClick model) index) as [u |] eqn:Hu;
      [| exact Hstay].
    apply thumbnail_onClick_nth in Hu as [Hlt Hu].
    apply (Hupd u (Z.of_nat index)); [apply Hu | lia].
  - rewrite (dispatch_keydown_own w model model g key Hm).
    unfold handleKeyDown.
    destruct (String.eqb key "ArrowLeft"); [now apply (Hupd _ jp) |].
    destruct (String.eqb key "ArrowRight"); [now apply (Hupd _ jn) |].
    exact Hstay.
Qed.

(** C1: a gallery that was mounted for a model with [n >= 1] images
    starts at index [0], and after any finite sequence of clicks on the
    next and previous buttons, clicks on thumbnails and key presses its
    [selectedImage] is an integer in [[0, n)]. *)
Theorem selectedImage_in_range (model : DetailedModelResponse)
    (before es : list event) :
  let n := Z.of_nat (List.length (images model)) in
  let mounted := step (run initial before) (FetchSettled (success model)) in
  1 <= n ->
  page (run initial before) = Some NoModel ->
  forallb gallery_event es = true ->
  selected mounted = Some (Num 0) /\
  exists i, selected (run mounted es) = Some (Num i) /\ 0 <= i < n.
Proof.
  intros n mounted Hn Hp Hes. subst n mounted.
  assert (Hl : window_keydown (run initial before) = []).
  { pose proof (reachable_listeners_scoped before) as Hs.
    unfold listeners_scoped in Hs. now rewrite Hp in Hs. }
  pose proof (mount_gallery_mounted _ model Hp Hl) as Hm.
  split; [unfold selected; now rewrite (proj1 Hm) |].
  set (w0 := step (run initial before) (FetchSettled (success model))) in *.
  set (g0 := {| inst := fresh (run initial before); selectedImage := Num 0 |}) in *.
  assert (H0 : exists i, selectedImage g0 = Num i /\
                         0 <= i < Z.of_nat (List.length (images model)))
    by (exists 0; split; [reflexivity | lia]).
  clearbody w0 g0. clear Hp Hl.
  revert w0 g0 Hm H0.
  induction es as [| e es IH]; intros w g Hm Hg.
  - destruct Hg as (i & Hsel & Hi). exists i.
    unfold run, selected. cbn. now rewrite (proj1 Hm), Hsel.
  - cbn in Hes. apply andb_prop in Hes as [He Hes].
    destruct (step_in_range w model g e Hn Hm Hg He) as (g' & Hm' & Hg').
    cbn [run fold_left]. fold (run (step w e) es).
    exact (IH Hes _ _ Hm' Hg').
Qed.

Lemma selectedImage_in_range_witness :
  selected (step (run initial []) (FetchSettled (success ABC))) = Some (Num 0) /\
  exists i,
    selected
      (run (step (run initial []) (FetchSettled (success ABC)))
           [ClickNextButton; ClickNextButton; KeyDown "ArrowRight";
            ClickPreviousButton; ClickThumbnail 1; KeyDown "ArrowLeft"])
    = Some (Num i) /\ 0 <= i < 3.
Proof.
  apply (selectedImage_in_range ABC []
           [ClickNextButton; ClickNextButton; KeyDown "ArrowRight";
            ClickPreviousButton; ClickThumbnail 1; KeyDown "ArrowLeft"]).
  - cbn. lia.
  - reflexivity.
  - reflexivity.
Defined.

Lemma nextImage_advances_witness :
  nextImage ABC (Num 2) = Num 0 /\
  exists j, nextImage ABC (Num 2) = Num j /\ 0 <= j < 3.
Proof.
  apply (nextImage_advances ABC 2); cbn; lia.
Defined.

Lemma previousImage_retreats_witness :
  previousImage ABC (Num 0) = Num 2 /\
  exists j, previousImage ABC (Num 0) = Num j /\ 0 <= j < 3.
Proof.
  apply (previousImage_retreats ABC 0); cbn; lia.
Defined.

Lemma next_previous_inverse_witness :
  previousImage ABC (nextImage ABC (Num 2)) = Num 2 /\
  nextImage ABC (previousImage ABC (Num 2)) = Num 2.
Proof.
  apply (next_previous_inverse ABC 2); cbn; lia.
Defined.

Lemma nextImage_full_cycle_witness :
  Nat.iter 5 (nextImage FIVE) (Num 3) = Num 3.
Proof.
  apply (nextImage_full_cycle FIVE 3); cbn; lia.
Defined.

(** The scenario of the gallery with the images [A], [B], [C]. *)
Example scenario_ABC :
  let w0 := run initial [FetchSettled (success ABC)] in
  selected w0 = Some (Num 0) /\
  selected (run w0 [ClickNextButton]) = Some (Num 1) /\
  selected (run w0 [ClickNextButton; ClickNextButton]) = Some (Num 2) /\
  selected (run w0 [ClickNextButton; ClickNextButton; ClickNextButton])
  = Some (Num 0) /\
  selected (run w0 [ClickPreviousButton]) = Some (Num 2).
Proof. repeat split. Qed.

(** ** A model without images *)

Lemma nextImage_no_images (model : DetailedModelResponse) (prev : number) :
  images model = [] -> nextImage model prev = NaN.
Proof.
  intros H. unfold nextImage, images_length. rewrite H.
  now destruct prev.
Qed.

Lemma previousImage_no_images (model : DetailedModelResponse) (prev : number) :
  images model = [] -> previousImage model prev = NaN.
Proof.
  intros H. unfold previousImage, images_length. rewrite H.
  now destruct prev.
Qed.

(** C4, on the code: for a model with no images the gallery is rendered
    all the same, with its buttons and its key listener; the main image
    is built from [images[0]], which is [undefined]; and the next button,
    the previous button and the arrow keys each run the remainder by
    zero and leave [NaN] in [selectedImage]. Nothing guards the empty
    sequence. *)
Theorem empty_gallery_is_not_guarded :
  let w := run initial [FetchSettled (success EMPTY)] in
  selected w = Some (Num 0) /\
  List.length (window_keydown w) = 1%nat /\
  (forall base, Model_render base w =
                Some {| main_image_src := base ++ "undefined";
                        thumbnail_srcs := [] |}) /\
  selected (step w ClickNextButton) = Some NaN /\
  selected (step w ClickPreviousButton) = Some NaN /\
  selected (step w (KeyDown "ArrowRight")) = Some NaN /\
  selected (step w (KeyDown "ArrowLeft")) = Some NaN /\
  step w ClickNextButton <> w.
Proof.
  cbn. repeat split. discriminate.
Qed.

(** ** A model that replaces another *)

(** C7, as stated, fails: the gallery shows [ABC] at index 2 when the
    record [ONE] arrives; the same gallery then shows [ONE], still at
    index 2, which is no index of [ONE]. *)
Lemma model_change_keeps_index :
  let w := run initial [FetchSettled (success ABC);
                        ClickNextButton; ClickNextButton] in
  let w' := step w (FetchSettled (success ONE)) in
  shown_model w = Some ABC /\
  selected w = Some (Num 2) /\
  shown_model w' = Some ONE /\
  ABC <> ONE /\
  selected w' = Some (Num 2) /\
  selected w' <> Some (Num 0) /\
  js_index (images ONE) (Num 2) = None.
Proof.
  cbn. repeat split; discriminate.
Qed.

(** C7, amended: when a model record arrives at a page that shows none,
    a gallery is mounted for it and its [selectedImage] is [0], whatever
    happened on the page before. *)
Theorem gallery_mount_selects_first (w : World) (m : DetailedModelResponse) :
  page w = Some NoModel ->
  shown_model (step w (FetchSettled (success m))) = Some m /\
  selected (step w (FetchSettled (success m))) = Some (Num 0).
Proof.
  intros Hp. cbn [step]. rewrite getModels_success. cbn [fst].
  unfold setModel, shown_model, selected. now rewrite Hp.
Qed.

Lemma gallery_mount_selects_first_witness :
  let w := run initial [FetchSettled (success ABC); ClickNextButton;
                        LeaveRoute; EnterRoute] in
  shown_model (step w (FetchSettled (success FIVE))) = Some FIVE /\
  selected (step w (FetchSettled (success FIVE))) = Some (Num 0).
Proof.
  apply (gallery_mount_selects_first
           (run initial [FetchSettled (success ABC); ClickNextButton;
                         LeaveRoute; EnterRoute]) FIVE).
  reflexivity.
Defined.

(** ** A fetch that fails *)

(** C8: when the fetch fails (no answer, a status outside 2xx, or a body
    that is not JSON) the chain ends in its [catch]: the error is logged
    once, the chain is fulfilled, [setModel] has not run, so the page,
    the listeners and the instances are what they were; a page without a
    model still has none and renders nothing. *)
Theorem fetch_failure_is_logged (o : FetchOutcome) (w : World) :
  fetch_fails o = true ->
  exists error,
    getModels o w = (console_error "Fetch error:" error w, Fulfilled tt) /\
    console (step w (FetchSettled o))
    = (console w ++ [("Fetch error:", error)])%list /\
    page (step w (FetchSettled o)) = page w /\
    window_keydown (step w (FetchSettled o)) = window_keydown w /\
    fresh (step w (FetchSettled o)) = fresh w /\
    (page w = Some NoModel ->
     shown_model (step w (FetchSettled o)) = None /\
     selected (step w (FetchSettled o)) = None /\
     forall base, Model_render base (step w (FetchSettled o)) = None).
Proof.
  intros Ho. destruct (getModels_fails o w Ho) as [error He].
  exists error. cbn [step]. rewrite He. cbn [fst].
  repeat split; unfold shown_model, selected, Model_render; cbn; now rewrite H.
Qed.

Lemma fetch_failure_is_logged_witness :
  exists error,
    getModels (Responds {| ok := false; body := ValidJson ABC |}) initial
    = (console_error "Fetch error:" error initial, Fulfilled tt) /\
    console (step initial
               (FetchSettled (Responds {| ok := false; body := ValidJson ABC |})))
    = (console initial ++ [("Fetch error:", error)])%list /\
    page (step initial
            (FetchSettled (Responds {| ok := false; body := ValidJson ABC |})))
    = page initial /\
    window_keydown
      (step initial
         (FetchSettled (Responds {| ok := false; body := ValidJson ABC |})))
    = window_keydown initial /\
    fresh (step initial
             (FetchSettled (Responds {| ok := false; body := ValidJson ABC |})))
    = fresh initial /\
    (page initial = Some NoModel ->
     shown_model
       (step initial
          (FetchSettled (Responds {| ok := false; body := ValidJson ABC |})))
     = None /\
     selected
       (step initial
          (FetchSettled (Responds {| ok := false; body := ValidJson ABC |})))
     = None /\
     forall base,
       Model_render base
         (step initial
            (FetchSettled (Responds {| ok := false; body := ValidJson ABC |})))
       = None).
Proof.
  apply (fetch_failure_is_logged
           (Responds {| ok := false; body := ValidJson ABC |}) initial).
  reflexivity.
Defined.

(** The three failures, each on a page that waits for its first model. *)
Example fetch_failures_logged :
  step initial (FetchSettled NetworkError)
  = console_error "Fetch error:" (TypeError "Failed to fetch") initial /\
  step initial (FetchSettled (Responds {| ok := false; body := InvalidJson |}))
  = console_error "Fetch error:" (Error "Network response was not ok") initial /\
  step initial (FetchSettled (Responds {| ok := true; body := InvalidJson |}))
  = console_error "Fetch error:" (SyntaxError "Unexpected token") initial.
Proof. repeat split. Qed.

(** ** The keyboard *)

Lemma nextImage_same_count (m m0 : DetailedModelResponse) (prev : number) :
  List.length (images m0) = List.length (images m) ->
  nextImage m0 prev = nextImage m prev.
Proof.
  intros H. unfold nextImage, images_length. now rewrite H.
Qed.

Lemma previousImage_same_count (m m0 : DetailedModelResponse) (prev : number) :
  List.length (images m0) = List.length (images m) ->
  previousImage m0 prev = previousImage m prev.
Proof.
  intros H. unfold previousImage, images_length. now rewrite H.
Qed.

(** C9, on the code: the gallery was mounted for [ABC] and now shows
    [FIVE] at index 2.  The next button, which carries the [nextImage]
    of the latest render, moves to index 3; the right arrow, which still
    calls the [nextImage] of the first render, moves to index 0.  The
    key does not do what the button does. *)
Lemma arrow_key_differs_from_button :
  let w := run initial [FetchSettled (success ABC);
                        ClickNextButton; ClickNextButton;
                        FetchSettled (success FIVE)] in
  shown_model w = Some FIVE /\
  selected w = Some (Num 2) /\
  selected (step w ClickNextButton) = Some (Num 3) /\
  selected (step w (KeyDown "ArrowRight")) = Some (Num 0) /\
  step w (KeyDown "ArrowRight") <> step w ClickNextButton.
Proof.
  cbn. repeat split. discriminate.
Qed.

(** What the keyboard does keep: while the gallery is mounted its
    listener is the only one on [window]; as long as the record on screen
    has as many images as the record of the first render, the arrows do
    what the buttons do; when the page is left the listener is removed,
    and a key pressed afterwards changes nothing. *)
Theorem keyboard_matches_buttons (es : list event)
    (m : DetailedModelResponse) (g : ImageGalleryInstance) :
  let w := run initial es in
  page w = Some (Loaded m g) ->
  exists m0,
    window_keydown w = [{| owner := inst g; closure_model := m0 |}] /\
    (List.length (images m0) = List.length (images m) ->
     step w (KeyDown "ArrowRight") = step w ClickNextButton /\
     step w (KeyDown "ArrowLeft") = step w ClickPreviousButton) /\
    window_keydown (step w LeaveRoute) = [] /\
    selected (step w LeaveRoute) = None /\
    forall key, step (step w LeaveRoute) (KeyDown key) = step w LeaveRoute.
Proof.
  intros w Hp. subst w.
  pose proof (reachable_listeners_scoped es) as Hs.
  unfold listeners_scoped in Hs. rewrite Hp in Hs. destruct Hs as [m0 Hl].
  exists m0. split; [exact Hl |].
  assert (Hgone : window_keydown (step (run initial es) LeaveRoute) = []).
  { cbn [step]. unfold unmount_Model. rewrite Hp. cbn. rewrite Hl. cbn.
    now rewrite Nat.eqb_refl. }
  repeat split.
  - cbn [step].
    rewrite (dispatch_keydown_own _ m m0 g "ArrowRight" (conj Hp Hl)).
    rewrite (click_own _ m g _ Hp). cbn.
    rewrite !(setSelectedImage_own _ m g _ Hp).
    now rewrite (nextImage_same_count m m0).
  - cbn [step].
    rewrite (dispatch_keydown_own _ m m0 g "ArrowLeft" (conj Hp Hl)).
    rewrite (click_own _ m g _ Hp). cbn.
    rewrite !(setSelectedImage_own _ m g _ Hp).
    now rewrite (previousImage_same_count m m0).
  - exact Hgone.
  - cbn [step]. unfold unmount_Model, selected. now rewrite Hp.
  - intros key. cbn [step] in *.
    now apply dispatch_keydown_no_listener.
Qed.

(** C10: the gallery mounted for [m0] registers one listener, and every
    later event short of leaving the page keeps exactly that listener.
    When the record [m'] then replaces the model on screen, the gallery
    shows [m'], the listener is still the one made for [m0], and the
    arrow keys compute the new index with the image count of [m0]. *)
Theorem keyboard_uses_mount_time_model (w : World)
    (m0 m' : DetailedModelResponse) (es : list event) :
  let w1 := run (step w (FetchSettled (success m0))) es in
  let w2 := step w1 (FetchSettled (success m')) in
  page w = Some NoModel ->
  window_keydown w = [] ->
  forallb (fun e => negb (is_LeaveRoute e)) es = true ->
  window_keydown (step w (FetchSettled (success m0)))
  = [{| owner := fresh w; closure_model := m0 |}] /\
  window_keydown w1 = [{| owner := fresh w; closure_model := m0 |}] /\
  window_keydown w2 = [{| owner := fresh w; closure_model := m0 |}] /\
  shown_model w2 = Some m' /\
  exists prev,
    selected w2 = Some prev /\
    selected (step w2 (KeyDown "ArrowRight"))
    = Some (js_rem (js_add prev (Num 1)) (images_length m0)) /\
    selected (step w2 (KeyDown "ArrowLeft"))
    = Some (js_rem (js_add (js_sub prev (Num 1)) (images_length m0))
                   (images_length m0)).
Proof.
  intros w1 w2 Hp Hl Hes. subst w1 w2.
  pose proof (mount_gallery_mounted w m0 Hp Hl) as Hm.
  destruct (run_gallery_mounted es _ _ _ _ Hm Hes) as (m1 & s1 & Hm1).
  cbn [inst] in Hm1.
  destruct (step_gallery_mounted _ _ _ _ (FetchSettled (success m')) Hm1 eq_refl)
    as (m2 & s2 & Hm2).
  cbn [inst] in Hm2.
  assert (Hshown : shown_model
                     (step (run (step w (FetchSettled (success m0))) es)
                           (FetchSettled (success m'))) = Some m').
  { destruct Hm1 as [Hp1 _].
    set (w1 := run (step w (FetchSettled (success m0))) es) in *.
    clearbody w1. cbn [step]. rewrite getModels_success. cbn [fst].
    unfold setModel, shown_model. now rewrite Hp1. }
  split; [exact (proj2 Hm) |].
  split; [exact (proj2 Hm1) |].
  split; [exact (proj2 Hm2) |].
  split; [exact Hshown |].
  exists s2. split; [unfold selected; now rewrite (proj1 Hm2) |].
  set (w2 := step (run (step w (FetchSettled (success m0))) es)
                  (FetchSettled (success m'))) in *.
  clearbody w2.
  split; cbn [step].
  - rewrite (dispatch_keydown_own _ _ _ _ "ArrowRight" Hm2). cbn.
    rewrite (setSelectedImage_own _ _ _ _ (proj1 Hm2)). reflexivity.
  - rewrite (dispatch_keydown_own _ _ _ _ "ArrowLeft" Hm2). cbn.
    rewrite (setSelectedImage_own _ _ _ _ (proj1 Hm2)). reflexivity.
Qed.

Lemma keyboard_uses_mount_time_model_witness :
  let w1 := run (step initial (FetchSettled (success ABC)))
                [ClickNextButton; ClickNextButton] in
  let w2 := step w1 (FetchSettled (success FIVE)) in
  window_keydown (step initial (FetchSettled (success ABC)))
  = [{| owner := fresh initial; closure_model := ABC |}] /\
  window_keydown w1 = [{| owner := fresh initial; closure_model := ABC |}] /\
  window_keydown w2 = [{| owner := fresh initial; closure_model := ABC |}] /\
  shown_model w2 = Some FIVE /\
  exists prev,
    selected w2 = Some prev /\
    selected (step w2 (KeyDown "ArrowRight"))
    = Some (js_rem (js_add prev (Num 1)) (images_length ABC)) /\
    selected (step w2 (KeyDown "ArrowLeft"))
    = Some (js_rem (js_add (js_sub prev (Num 1)) (images_length ABC))
                   (images_length ABC)).
Proof.
  apply (keyboard_uses_mount_time_model initial ABC FIVE
           [ClickNextButton; ClickNextButton]); reflexivity.
Defined.

(** The same run, evaluated: the gallery shows the five images of [FIVE]
    at index 2, and the right arrow wraps to 0 as if there were three. *)
Example stale_count_after_model_change :
  let w2 := run initial [FetchSettled (success ABC);
                         ClickNextButton; ClickNextButton;
                         FetchSettled (success FIVE)] in
  selected w2 = Some (Num 2) /\
  selected (step w2 (KeyDown "ArrowRight")) = Some (Num 0) /\
  nextImage FIVE (Num 2) = Num 3.
Proof. repeat split. Qed.

(** ** Repeated navigation *)

Lemma previousImage_iter (model : DetailedModelResponse) (i : Z) (k : nat) :
  0 < Z.of_nat (List.length (images model)) ->
  0 <= i < Z.of_nat (List.length (images model)) ->
  Nat.iter k (previousImage model) (Num i) =
  Num ((i - Z.of_nat k) mod Z.of_nat (List.length (images model))).
Proof.
  intros Hn Hi. induction k as [| k IH].
  - cbn. now rewrite Z.sub_0_r, Z.mod_small by lia.
  - rewrite Nat.iter_succ, IH.
    rewrite previousImage_num by (try apply Z.mod_pos_bound; lia).
    rewrite Zminus_mod_idemp_l. f_equal. f_equal. lia.
Qed.

(** X1: with [n >= 1] images, [k] presses of next from [i] land on
    [(i + k) mod n] and [k] presses of previous on [(i - k) mod n]. *)
Theorem navigation_k_times (model : DetailedModelResponse) (i : Z) (k : nat) :
  let n := Z.of_nat (List.length (images model)) in
  1 <= n ->
  0 <= i < n ->
  Nat.iter k (nextImage model) (Num i) = Num ((i + Z.of_nat k) mod n) /\
  Nat.iter k (previousImage model) (Num i) = Num ((i - Z.of_nat k) mod n).
Proof.
  intros n Hn Hi. subst n. split.
  - apply nextImage_iter; lia.
  - apply previousImage_iter; lia.
Qed.

Lemma navigation_k_times_witness :
  Nat.iter 7 (nextImage ABC) (Num 1) = Num ((1 + Z.of_nat 7) mod 3) /\
  Nat.iter 7 (previousImage ABC) (Num 1) = Num ((1 - Z.of_nat 7) mod 3).
Proof.
  apply (navigation_k_times ABC 1 7); cbn; lia.
Defined.

(** X2: with [n >= 1] images, [k] presses of previous undo [k] presses
    of next, and the other way round, for every [k] (also beyond [n]). *)
Theorem navigation_k_times_undone (model : DetailedModelResponse)
    (i : Z) (k : nat) :
  let n := Z.of_nat (List.length (images model)) in
  1 <= n ->
  0 <= i < n ->
  Nat.iter k (previousImage model) (Nat.iter k (nextImage model) (Num i))
  = Num i /\
  Nat.iter k (nextImage model) (Nat.iter k (previousImage model) (Num i))
  = Num i.
Proof.
  intros n Hn Hi. subst n.
  set (n := Z.of_nat (List.length (images model))) in *.
  assert (Hpos : 0 < n) by lia.
  split.
  - rewrite nextImage_iter by lia. fold n.
    rewrite previousImage_iter by (try apply Z.mod_pos_bound; lia). fold n.
    rewrite Zminus_mod_idemp_l.
    replace (i + Z.of_nat k - Z.of_nat k) with i by lia.
    now rewrite Z.mod_small by lia.
  - rewrite previousImage_iter by lia. fold n.
    rewrite nextImage_iter by (try apply Z.mod_pos_bound; lia). fold n.
    rewrite Zplus_mod_idemp_l.
    replace (i - Z.of_nat k + Z.of_nat k) with i by lia.
    now rewrite Z.mod_small by lia.
Qed.

Lemma navigation_k_times_undone_witness :
  Nat.iter 8 (previousImage FIVE) (Nat.iter 8 (nextImage FIVE) (Num 4))
  = Num 4 /\
  Nat.iter 8 (nextImage FIVE) (Nat.iter 8 (previousImage FIVE) (Num 4))
  = Num 4.
Proof.
  apply (navigation_k_times_undone FIVE 4 8); cbn; lia.
Defined.

(** ** One mounted gallery, event by event *)

Lemma fetched_success (o : FetchOutcome) (m : DetailedModelResponse) :
  fetched o = Some m -> o = success m.
Proof.
  destruct o as [| [ok b]]; cbn; [discriminate |].
  destruct ok, b; cbn; try discriminate.
  now intros [= ->].
Qed.

Lemma fetched_none (o : FetchOutcome) :
  fetched o = None -> fetch_fails o = true.
Proof.
  destruct o as [| [ok b]]; cbn; [reflexivity |].
  now destruct ok, b.
Qed.

Lemma step_gallery_exact (w : World) (m m0 : DetailedModelResponse)
    (g : ImageGalleryInstance) (e : event) :
  gallery_mounted w m m0 g ->
  is_LeaveRoute e = false ->
  gallery_mounted (step w e) (model_after m e) m0
    {| inst := inst g;
       selectedImage := index_after m m0 e (selectedImage g) |}.
Proof.
  intros Hm He.
  assert (Hsame : gallery_mounted w m m0
                    {| inst := inst g; selectedImage := selectedImage g |})
    by (now destruct g).
  pose proof Hm as [Hp Hl].
  destruct e; cbn [step index_after model_after]; try discriminate.
  - unfold mount_Model. now rewrite Hp.
  - destruct (fetched o) as [m' |] eqn:Ho.
    + apply fetched_success in Ho as ->.
      rewrite getModels_success. cbn [fst]. unfold setModel. rewrite Hp.
      split; cbn; [now destruct g | exact Hl].
    + apply fetched_none in Ho.
      destruct (getModels_fails o w Ho) as [error ->]. cbn [fst].
      destruct Hsame as [Hp' Hl']. now split.
  - rewrite (click_own w m g _ Hp). now apply gallery_mounted_select.
  - rewrite (click_own w m g _ Hp). now apply gallery_mounted_select.
  - rewrite (click_own w m g _ Hp).
    destruct (nth_error (thumbnail_onClick m) index);
      [now apply gallery_mounted_select | exact Hsame].
  - rewrite (dispatch_keydown_own w m m0 g key Hm).
    destruct (handleKeyDown m0 key);
      [now apply gallery_mounted_select | exact Hsame].
Qed.

(** Induction over the worlds that can be reached: a property [Pm] of
    the records that arrive and a property [P] of the index, kept by
    every event, hold of what is on screen and of what the listener
    closes over. *)
Lemma reachable_invariant (Pm : DetailedModelResponse -> Prop)
    (P : number -> Prop) :
  P (Num 0) ->
  (forall m m0 e s, Pm m -> Pm m0 -> P s -> P (index_after m m0 e s)) ->
  forall es : list event,
    Forall (delivers Pm) es ->
    match page (run initial es) with
    | Some (Loaded m g) =>
        Pm m /\ P (selectedImage g) /\
        exists m0, Pm m0 /\
                   window_keydown (run initial es)
                   = [{| owner := inst g; closure_model := m0 |}]
    | _ => window_keydown (run initial es) = []
    end.
Proof.
  intros H0 Hstep es. unfold run. rewrite <- (rev_involutive es).
  intros Hes. apply Forall_rev in Hes. rewrite rev_involutive in Hes.
  induction (rev es) as [| e l IH]; [reflexivity |].
  cbn [rev]. rewrite fold_left_app. cbn [fold_left].
  inversion Hes as [| e' l' He Hl]; subst. specialize (IH Hl).
  set (w := fold_left step (rev l) initial) in *. clearbody w.
  destruct (page w) as [[| m g] |] eqn:Hp.
  - (* no model yet *)
    destruct e; cbn [step];
      try (unfold click; rewrite Hp; now rewrite Hp).
    + unfold mount_Model. rewrite Hp. now rewrite Hp.
    + unfold unmount_Model. now rewrite Hp.
    + destruct (fetched o) as [m' |] eqn:Ho.
      * cbn in He. rewrite Ho in He.
        apply fetched_success in Ho as ->.
        rewrite getModels_success. cbn [fst]. unfold setModel. rewrite Hp.
        cbn. rewrite IH. repeat split; try assumption.
        exists m'. now split.
      * apply fetched_none in Ho.
        destruct (getModels_fails o w Ho) as [error ->]. cbn. now rewrite Hp.
    + rewrite dispatch_keydown_no_listener by exact IH. now rewrite Hp.
  - (* a gallery is on screen *)
    destruct IH as (Hm & Hs & m0 & Hm0 & Hl0).
    destruct (is_LeaveRoute e) eqn:Hleave.
    + destruct e; try discriminate. cbn [step]. unfold unmount_Model.
      rewrite Hp. cbn. rewrite Hl0. cbn. now rewrite Nat.eqb_refl.
    + destruct (step_gallery_exact w m m0 g e (conj Hp Hl0) Hleave)
        as [Hp' Hl'].
      rewrite Hp'. cbn [inst selectedImage].
      split; [| split; [now apply Hstep | exists m0; now split]].
      destruct e; cbn [model_after]; try exact Hm.
      cbn in He. now destruct (fetched o).
  - (* [Model] is not mounted *)
    destruct e; cbn [step];
      try (unfold click; rewrite Hp; now rewrite Hp).
    + unfold mount_Model. rewrite Hp. now cbn.
    + unfold unmount_Model. now rewrite Hp, Hp.
    + destruct (fetched o) as [m' |] eqn:Ho.
      * apply fetched_success in Ho as ->.
        rewrite getModels_success. cbn [fst]. unfold setModel.
        now rewrite Hp, Hp.
      * apply fetched_none in Ho.
        destruct (getModels_fails o w Ho) as [error ->]. cbn. now rewrite Hp.
    + rewrite dispatch_keydown_no_listener by exact IH. now rewrite Hp.
Qed.

(** ** What every reachable page satisfies *)

Lemma nextImage_not_negative (m : DetailedModelResponse) (s : number) :
  not_negative s -> not_negative (nextImage m s).
Proof.
  destruct s as [i |]; [| now intros _].
  unfold nextImage, images_length, js_add, js_rem, not_negative. intros Hi.
  destruct (Z.eqb_spec (Z.of_nat (List.length (images m))) 0); [exact I |].
  apply Z.rem_nonneg; lia.
Qed.

Lemma previousImage_not_negative (m : DetailedModelResponse) (s : number) :
  not_negative s -> not_negative (previousImage m s).
Proof.
  destruct s as [i |]; [| now intros _].
  unfold previousImage, images_length, js_add, js_sub, js_rem, not_negative.
  intros Hi.
  destruct (Z.eqb_spec (Z.of_nat (List.length (images m))) 0); [exact I |].
  apply Z.rem_nonneg; lia.
Qed.

Lemma index_after_not_negative (m m0 : DetailedModelResponse) (e : event)
    (s : number) :
  not_negative s -> not_negative (index_after m m0 e s).
Proof.
  intros Hs. destruct e; cbn [index_after]; try exact Hs.
  - now apply previousImage_not_negative.
  - now apply nextImage_not_negative.
  - destruct (nth_error (thumbnail_onClick m) index) as [u |] eqn:Hu;
      [| exact Hs].
    apply thumbnail_onClick_nth in Hu as [_ Hu]. rewrite Hu. cbn. lia.
  - unfold handleKeyDown.
    destruct (String.eqb key "ArrowLeft");
      [now apply previousImage_not_negative |].
    destruct (String.eqb key "ArrowRight");
      [now apply nextImage_not_negative | exact Hs].
Qed.

Lemma delivers_anything (es : list event) :
  Forall (delivers (fun _ => True)) es.
Proof.
  apply Forall_forall. intros e _. destruct e; cbn; try exact I.
  now destruct (fetched o).
Qed.

Lemma reachable_not_negative (es : list event)
    (m : DetailedModelResponse) (g : ImageGalleryInstance) :
  page (run initial es) = Some (Loaded m g) ->
  not_negative (selectedImage g).
Proof.
  intros Hp.
  pose proof (reachable_invariant (fun _ => True) not_negative) as H.
  specialize (H ltac:(cbn; lia)
                (fun m m0 e s _ _ => index_after_not_negative m m0 e s)
                es (delivers_anything es)).
  rewrite Hp in H. tauto.
Qed.

(** X3: whatever happens on the page (records arriving, failing
    fetches, clicks, keys, leaving and entering), the index of the
    gallery is never a negative number: [previousImage] adds the image
    count before it takes the remainder. *)
Theorem selectedImage_never_negative (es : list event) :
  match selected (run initial es) with
  | Some s => not_negative s
  | None => True
  end.
Proof.
  unfold selected.
  destruct (page (run initial es)) as [[| m g] |] eqn:Hp; try exact I.
  now apply (reachable_not_negative es m g).
Qed.

Lemma nextImage_with_images (m : DetailedModelResponse) (i : Z) :
  has_images m -> 0 <= i ->
  exists j, nextImage m (Num i) = Num j /\ 0 <= j.
Proof.
  intros Hm Hi. apply images_length_pos in Hm.
  destruct (nextImage_in_range m i Hm Hi) as (j & Hj & Hr).
  exists j. split; [exact Hj | lia].
Qed.

Lemma previousImage_with_images (m : DetailedModelResponse) (i : Z) :
  has_images m -> 0 <= i ->
  exists j, previousImage m (Num i) = Num j /\ 0 <= j.
Proof.
  intros Hm Hi. apply images_length_pos in Hm.
  destruct (previousImage_in_range m i Hm Hi) as (j & Hj & Hr).
  exists j. split; [exact Hj | lia].
Qed.

(** X4: as long as every record that arrives has at least one image,
    the index is a natural number at all times: [NaN] can only come from
    a record without images. *)
Theorem selectedImage_is_a_number (es : list event) :
  Forall (delivers has_images) es ->
  match selected (run initial es) with
  | Some s => exists i, s = Num i /\ 0 <= i
  | None => True
  end.
Proof.
  intros Hes.
  pose proof (reachable_invariant has_images
                (fun s => exists i, s = Num i /\ 0 <= i)) as H.
  assert (H0 : exists i, Num 0 = Num i /\ 0 <= i)
    by (exists 0; split; [reflexivity | lia]).
  assert (Hstep : forall m m0 e s,
             has_images m -> has_images m0 ->
             (exists i, s = Num i /\ 0 <= i) ->
             exists i, index_after m m0 e s = Num i /\ 0 <= i).
  { intros m m0 e s Hm Hm0 (i & -> & Hi).
    assert (Hs : exists j, Num i = Num j /\ 0 <= j) by now exists i.
    destruct e; cbn [index_after]; try exact Hs.
    - now apply previousImage_with_images.
    - now apply nextImage_with_images.
    - destruct (nth_error (thumbnail_onClick m) index) as [u |] eqn:Hu;
        [| exact Hs].
      apply thumbnail_onClick_nth in Hu as [_ Hu]. rewrite Hu.
      exists (Z.of_nat index). split; [reflexivity | lia].
    - unfold handleKeyDown.
      destruct (String.eqb key "ArrowLeft");
        [now apply previousImage_with_images |].
      destruct (String.eqb key "ArrowRight");
        [now apply nextImage_with_images | exact Hs]. }
  specialize (H H0 Hstep es Hes). unfold selected.
  destruct (page (run initial es)) as [[| m g] |]; try exact I.
  tauto.
Qed.

Lemma selectedImage_is_a_number_witness :
  match selected (run initial [FetchSettled (success FIVE); ClickPreviousButton;
                               FetchSettled (success ABC); KeyDown "ArrowRight";
                               FetchSettled NetworkError]) with
  | Some s => exists i, s = Num i /\ 0 <= i
  | None => True
  end.
Proof.
  apply (selectedImage_is_a_number
           [FetchSettled (success FIVE); ClickPreviousButton;
            FetchSettled (success ABC); KeyDown "ArrowRight";
            FetchSettled NetworkError]).
  repeat constructor; cbn; discriminate.
Defined.

(** X5: on any reachable page that shows a record with [n >= 1] images
    at an index that is not [NaN] (the index may be stale and too large,
    left over from a record with more images), one click on the next or
    on the previous button brings the index into [[0, n)]. *)
Theorem button_click_restores_range (es : list event)
    (m : DetailedModelResponse) (g : ImageGalleryInstance) :
  let w := run initial es in
  let n := Z.of_nat (List.length (images m)) in
  page w = Some (Loaded m g) ->
  1 <= n ->
  selectedImage g <> NaN ->
  (exists j, selected (step w ClickNextButton) = Some (Num j) /\ 0 <= j < n) /\
  (exists j, selected (step w ClickPreviousButton) = Some (Num j) /\ 0 <= j < n).
Proof.
  intros w n Hp Hn Hs. subst w n.
  pose proof (reachable_not_negative es m g Hp) as Hi.
  destruct (selectedImage g) as [i |] eqn:Hsel; [| congruence].
  cbn in Hi.
  rewrite (selected_ClickNextButton _ m g Hp),
          (selected_ClickPreviousButton _ m g Hp), Hsel.
  split.
  - destruct (nextImage_in_range m i ltac:(lia) Hi) as (j & -> & Hj).
    now exists j.
  - destruct (previousImage_in_range m i ltac:(lia) Hi) as (j & -> & Hj).
    now exists j.
Qed.

Lemma button_click_restores_range_witness :
  let w := run initial [FetchSettled (success FIVE); ClickPreviousButton;
                        FetchSettled (success ABC)] in
  (exists j, selected (step w ClickNextButton) = Some (Num j) /\ 0 <= j < 3) /\
  (exists j, selected (step w ClickPreviousButton) = Some (Num j) /\ 0 <= j < 3).
Proof.
  apply (button_click_restores_range
           [FetchSettled (success FIVE); ClickPreviousButton;
            FetchSettled (success ABC)]
           ABC {| inst := 0; selectedImage := Num 4 |}).
  - reflexivity.
  - cbn. lia.
  - discriminate.
Defined.

(** The arrow keys do not share this: mounted for [FIVE] and now showing
    [ABC] at index 2, the right arrow moves to index 3, which [ABC] does
    not have. *)
Example arrow_key_leaves_range :
  let w := run initial [FetchSettled (success FIVE); ClickNextButton;
                        ClickNextButton; FetchSettled (success ABC)] in
  selected (step w (KeyDown "ArrowRight")) = Some (Num 3) /\
  js_index (images ABC) (Num 3) = None.
Proof. split; reflexivity. Qed.




Lemma thumbnail_onClick_at (m : DetailedModelResponse) (k : nat) :
  (k < List.length (images m))%nat ->
  exists u, nth_error (thumbnail_onClick m) k = Some u /\
            forall prev, u prev = Num (Z.of_nat k).
Proof.
  intros Hk.
  destruct (nth_error (thumbnail_onClick m) k) as [u |] eqn:Hu.
  - exists u. split; [reflexivity |].
    now apply thumbnail_onClick_nth in Hu.
  - apply nth_error_None in Hu. unfold thumbnail_onClick in Hu.
    rewrite length_map, length_seq in Hu. lia.
Qed.

Lemma js_index_nat {A : Type} (arr : list A) (k : nat) :
  js_index arr (Num (Z.of_nat k)) = nth_error arr k.
Proof.
  unfold js_index.
  destruct (Z.ltb_spec (Z.of_nat k) 0); [lia | now rewrite Nat2Z.id].
Qed.

(** X7: a click on the thumbnail of image [k] selects [k] and puts that
    image in the main view, whatever the index was before, [NaN] and
    stale indices included. *)
Theorem thumbnail_click_selects (w : World) (m : DetailedModelResponse)
    (g : ImageGalleryInstance) (k : nat) (img : string) :
  page w = Some (Loaded m g) ->
  nth_error (images m) k = Some img ->
  selected (step w (ClickThumbnail k)) = Some (Num (Z.of_nat k)) /\
  shown_model (step w (ClickThumbnail k)) = Some m /\
  forall base,
    option_map main_image_src (Model_render base (step w (ClickThumbnail k)))
    = Some (base ++ img).
Proof.
  intros Hp Himg.
  assert (Hk : (k < List.length (images m))%nat)
    by (apply nth_error_Some; rewrite Himg; discriminate).
  destruct (thumbnail_onClick_at m k Hk) as (u & Hu & Hval).
  cbn [step]. rewrite (click_own w m g _ Hp), Hu.
  rewrite (setSelectedImage_own w m g u Hp).
  unfold selected, shown_model, Model_render. cbn. rewrite Hval.
  repeat split. intros base. now rewrite js_index_nat, Himg.
Qed.

Lemma thumbnail_click_selects_witness :
  let w := run initial [FetchSettled (success EMPTY); ClickNextButton;
                        FetchSettled (success ABC)] in
  selected (step w (ClickThumbnail 1)) = Some (Num (Z.of_nat 1)) /\
  shown_model (step w (ClickThumbnail 1)) = Some ABC /\
  forall base,
    option_map main_image_src (Model_render base (step w (ClickThumbnail 1)))
    = Some (base ++ "/B.png").
Proof.
  apply (thumbnail_click_selects
           (run initial [FetchSettled (success EMPTY); ClickNextButton;
                         FetchSettled (success ABC)])
           ABC {| inst := 0; selectedImage := NaN |} 1 "/B.png");
    reflexivity.
Defined.

Lemma dispatch_keydown_other (key : string) (ls : list KeyListener) :
  String.eqb key "ArrowLeft" = false ->
  String.eqb key "ArrowRight" = false ->
  forall w : World,
    fold_left
      (fun w' l =>
         match handleKeyDown (closure_model l) key with
         | Some u => setSelectedImage (owner l) u w'
         | None => w'
         end) ls w = w.
Proof.
  intros HL HR. induction ls as [| l ls IH]; intros w; [reflexivity |].
  cbn [fold_left]. unfold handleKeyDown at 2. rewrite HL, HR. apply IH.
Qed.

(** X8: a key other than [ArrowLeft] and [ArrowRight] (the comparison is
    exact, so [arrowleft] or [Left] are other keys) changes nothing, on
    any page and with any listeners. *)
Theorem other_keys_do_nothing (w : World) (key : string) :
  key <> "ArrowLeft" ->
  key <> "ArrowRight" ->
  step w (KeyDown key) = w.
Proof.
  intros HL HR. apply String.eqb_neq in HL, HR.
  cbn [step]. unfold dispatch_keydown. now apply dispatch_keydown_other.
Qed.

Lemma other_keys_do_nothing_witness :
  step (run initial [FetchSettled (success ABC); ClickNextButton])
       (KeyDown "arrowleft")
  = run initial [FetchSettled (success ABC); ClickNextButton].
Proof.
  apply (other_keys_do_nothing
           (run initial [FetchSettled (success ABC); ClickNextButton])
           "arrowleft"); discriminate.
Defined.

(** ** Which record is on screen *)










(** X11: listeners do not pile up: at any time [window] carries exactly
    one [keydown] listener of this page while a gallery is on screen,
    owned by that gallery, and none otherwise, however often the page was
    left and entered and however many records arrived. *)
Theorem no_listener_leak (es : list event) :
  match page (run initial es) with
  | Some (Loaded _ g) =>
      map owner (window_keydown (run initial es)) = [inst g]
  | _ => window_keydown (run initial es) = []
  end.
Proof.
  pose proof (reachable_listeners_scoped es) as Hs.
  unfold listeners_scoped in Hs.
  destruct (page (run initial es)) as [[| m g] |]; try exact Hs.
  destruct Hs as [m0 ->]. reflexivity.
Qed.

(** ** What the gallery draws *)

Lemma js_index_None {A : Type} (arr : list A) (s : number) :
  js_index arr s = None <->
  match s with
  | Num i => i < 0 \/ Z.of_nat (List.length arr) <= i
  | NaN => True
  end.
Proof.
  destruct s as [i |]; cbn; [| tauto].
  destruct (Z.ltb_spec i 0) as [Hneg | Hpos]; [split; [lia | trivial] |].
  rewrite nth_error_None. lia.
Qed.

Lemma thumbnail_ring_nth (m : DetailedModelResponse) (s : number) (j : nat) :
  nth_error (thumbnail_ring m s) j =
  if (j <? List.length (images m))%nat
  then Some (js_strict_eq (Num (Z.of_nat j)) s)
  else None.
Proof.
  unfold thumbnail_ring. rewrite nth_error_map, nth_error_seq.
  now destruct (j <? List.length (images m))%nat.
Qed.

(** X12: when the index is the position [k] of an image, the main view
    shows that image, its source is the one of the [k]-th thumbnail,
    there are as many thumbnails as images, and the ring is on the
    [k]-th thumbnail and on no other. *)
Theorem ring_marks_main_image (base : string) (m : DetailedModelResponse)
    (k : nat) (img : string) :
  let view := ImageGallery_render base m (Num (Z.of_nat k)) in
  nth_error (images m) k = Some img ->
  main_image_src view = base ++ img /\
  nth_error (thumbnail_srcs view) k = Some (main_image_src view) /\
  List.length (thumbnail_srcs view) = List.length (images m) /\
  List.length (thumbnail_ring m (Num (Z.of_nat k))) = List.length (images m) /\
  forall j, nth_error (thumbnail_ring m (Num (Z.of_nat k))) j = Some true
            <-> j = k.
Proof.
  intros view Himg. subst view. cbn [ImageGallery_render main_image_src thumbnail_srcs].
  rewrite js_index_nat, Himg. cbn [template_of].
  assert (Hk : (k < List.length (images m))%nat)
    by (apply nth_error_Some; rewrite Himg; discriminate).
  repeat split.
  - now rewrite nth_error_map, Himg.
  - apply length_map.
  - unfold thumbnail_ring. now rewrite length_map, length_seq.
  - rewrite thumbnail_ring_nth.
    destruct (Nat.ltb_spec j (List.length (images m))) as [Hj | Hj];
      [| discriminate].
    cbn. intros [= Heq]. apply Z.eqb_eq in Heq. lia.
  - intros ->. rewrite thumbnail_ring_nth.
    apply Nat.ltb_lt in Hk. rewrite Hk. cbn. now rewrite Z.eqb_refl.
Qed.

Lemma ring_marks_main_image_witness :
  let view := ImageGallery_render "http://vault" ABC (Num (Z.of_nat 2)) in
  main_image_src view = "http://vault" ++ "/C.png" /\
  nth_error (thumbnail_srcs view) 2 = Some (main_image_src view) /\
  List.length (thumbnail_srcs view) = List.length (images ABC) /\
  List.length (thumbnail_ring ABC (Num (Z.of_nat 2))) = List.length (images ABC) /\
  forall j, nth_error (thumbnail_ring ABC (Num (Z.of_nat 2))) j = Some true
            <-> j = 2%nat.
Proof.
  apply (ring_marks_main_image "http://vault" ABC 2 "/C.png").
  reflexivity.
Defined.

(** X13: when the index is no position of an image ([NaN], a stale
    index that is too large, or any index of a record without images),
    the main image source ends in [undefined] and no thumbnail carries
    the ring. *)
Theorem no_ring_without_main_image (base : string)
    (m : DetailedModelResponse) (s : number) :
  js_index (images m) s = None ->
  main_image_src (ImageGallery_render base m s) = base ++ "undefined" /\
  Forall (fun ring => ring = false) (thumbnail_ring m s).
Proof.
  intros Hs. split.
  - cbn. now rewrite Hs.
  - apply js_index_None in Hs.
    apply Forall_forall. intros ring Hin. unfold thumbnail_ring in Hin.
    apply in_map_iff in Hin as (index & <- & Hin). apply in_seq in Hin.
    destruct s as [i |]; [| reflexivity].
    cbn. apply Z.eqb_neq. lia.
Qed.

Lemma no_ring_without_main_image_witness :
  main_image_src (ImageGallery_render "http://vault" ONE (Num 2))
  = "http://vault" ++ "undefined" /\
  Forall (fun ring => ring = false) (thumbnail_ring ONE (Num 2)).
Proof.
  apply (no_ring_without_main_image "http://vault" ONE (Num 2)).
  reflexivity.
Defined.

(** ** The scroll effect *)

(** X14: when there is a thumbnail at the index, the effect asks for the
    scroll position at which the middle of that thumbnail is in the
    middle of the strip: [left + stripWidth / 2 = offsetLeft +
    thumbnailWidth / 2]. *)
Theorem scroll_centres_thumbnail (thumbnailsContainer : ThumbnailsContainer)
    (s : number) (selectedThumbnail : HTMLElement) :
  js_index (children thumbnailsContainer) s = Some selectedThumbnail ->
  exists left,
    scroll_selected_into_view (Some thumbnailsContainer) s = Some left /\
    (left + inject_Z (container_offsetWidth thumbnailsContainer) / 2
     == inject_Z (offsetLeft selectedThumbnail)
        + inject_Z (offsetWidth selectedThumbnail) / 2)%Q.
Proof.
  intros Ht. unfold scroll_selected_into_view. rewrite Ht.
  eexists. split; [reflexivity | field].
Qed.

Lemma scroll_centres_thumbnail_witness :
  exists left,
    scroll_selected_into_view (Some strip_ABC) (Num 1) = Some left /\
    (left + inject_Z (container_offsetWidth strip_ABC) / 2
     == inject_Z (offsetLeft {| offsetLeft := 120; offsetWidth := 80 |})
        + inject_Z (offsetWidth {| offsetLeft := 120; offsetWidth := 80 |}) / 2)%Q.
Proof.
  apply (scroll_centres_thumbnail strip_ABC (Num 1)
           {| offsetLeft := 120; offsetWidth := 80 |}).
  reflexivity.
Defined.

(** X15: the effect is guarded where the navigation is not: with one
    child of the strip per image, it scrolls exactly when the main image
    exists; for [NaN], for a stale index and for a record without images
    it returns early, as it does when the ref is [null]. *)
Theorem scroll_only_to_existing_thumbnail (m : DetailedModelResponse)
    (thumbnailsContainer : ThumbnailsContainer) (s : number) :
  List.length (children thumbnailsContainer) = List.length (images m) ->
  scroll_selected_into_view None s = None /\
  (scroll_selected_into_view (Some thumbnailsContainer) s = None
   <-> js_index (images m) s = None).
Proof.
  intros Hlen. split; [reflexivity |].
  rewrite (js_index_None (images m) s), <- Hlen,
          <- (js_index_None (children thumbnailsContainer) s).
  unfold scroll_selected_into_view.
  destruct (js_index (children thumbnailsContainer) s);
    split; trivial; discriminate.
Qed.

Lemma scroll_only_to_existing_thumbnail_witness :
  scroll_selected_into_view None NaN = None /\
  (scroll_selected_into_view (Some strip_ABC) NaN = None
   <-> js_index (images ABC) NaN = None).
Proof.
  apply (scroll_only_to_existing_thumbnail ABC strip_ABC NaN).
  reflexivity.
Defined.

(** ** The name a file is saved under *)

Lemma split_not_nil (sep : ascii) (s : string) : split sep s <> [].
Proof.
  destruct s as [| c rest]; cbn; [discriminate |].
  destruct (Ascii.eqb c sep); [discriminate |].
  destruct (split sep rest); discriminate.
Qed.

Lemma split_without_sep (sep : ascii) (s : string) :
  occurs sep s = false -> split sep s = [s].
Proof.
  induction s as [| c rest IH]; cbn; [reflexivity |].
  intros H. apply orb_false_iff in H as [Hc Hrest].
  now rewrite Hc, (IH Hrest).
Qed.

Lemma split_at_sep (sep : ascii) (a b : string) :
  split sep (a ++ String sep b) = (split sep a ++ split sep b)%list.
Proof.
  induction a as [| c a IH]; cbn.
  - now rewrite Ascii.eqb_refl.
  - destruct (Ascii.eqb c sep); [now rewrite IH |].
    rewrite IH.
    destruct (split sep a) as [| piece pieces] eqn:Ha; [| reflexivity].
    now apply split_not_nil in Ha.
Qed.

Lemma pop_app {A : Type} (l1 l2 : list A) :
  l2 <> [] -> pop (l1 ++ l2)%list = pop l2.
Proof.
  intros H2. induction l1 as [| x l1 IH]; [reflexivity |].
  cbn [app pop]. rewrite IH.
  destruct (l1 ++ l2)%list eqn:E; [| reflexivity].
  apply app_eq_nil in E as [_ E]. contradiction.
Qed.

Lemma last_segment (sep : ascii) (s : string) :
  occurs sep s = false \/
  exists dir name, s = dir ++ String sep name /\ occurs sep name = false.
Proof.
  induction s as [| c rest IH]; [now left |].
  destruct IH as [Hfree | (dir & name & -> & Hname)].
  - cbn. destruct (Ascii.eqb_spec c sep) as [-> | Hc].
    + right. exists "", rest. now split.
    + left. exact Hfree.
  - right. exists (String c dir), name. now split.
Qed.

(** X16: for a path [dir/name] whose [name] has no slash, the download
    button saves the file under [name]: everything up to and including
    the last slash is dropped, and the URL keeps the whole path. *)
Theorem download_name_is_last_segment (base : string) (file : ModelFile)
    (dir name : string) :
  file_path file = dir ++ "/" ++ name ->
  occurs "/" name = false ->
  FileList_download base file = (base ++ file_path file, Some name).
Proof.
  intros Hpath Hname. unfold FileList_download. f_equal.
  rewrite Hpath. change ("/" ++ name) with (String "/" name).
  rewrite split_at_sep, pop_app by apply split_not_nil.
  now rewrite split_without_sep.
Qed.

Lemma download_name_is_last_segment_witness :
  FileList_download "http://vault" benchy_stl
  = ("http://vault" ++ file_path benchy_stl, Some "benchy.stl").
Proof.
  apply (download_name_is_last_segment "http://vault" benchy_stl
           "/3d/benchy/files" "benchy.stl"); reflexivity.
Defined.

(** X17: the name handed to [saveAs] is never [undefined]: for every
    path it is a string without a slash; it is the whole path when the
    path has no slash, and otherwise the path ends in a slash followed by
    it (so a path that ends in a slash gives the empty name). *)
Theorem download_name_is_defined (base : string) (file : ModelFile) :
  exists name,
    snd (FileList_download base file) = Some name /\
    occurs "/" name = false /\
    (occurs "/" (file_path file) = false -> name = file_path file) /\
    (occurs "/" (file_path file) = true ->
     exists dir, file_path file = dir ++ "/" ++ name).
Proof.
  cbn [FileList_download snd].
  destruct (last_segment "/" (file_path file))
    as [Hfree | (dir & name & Hpath & Hname)].
  - exists (file_path file). rewrite split_without_sep by exact Hfree.
    repeat split; trivial. intros H. congruence.
  - exists name. rewrite Hpath.
    rewrite split_at_sep, pop_app by apply split_not_nil.
    rewrite split_without_sep by exact Hname.
    repeat split; trivial.
    + intros H. rewrite <- Hpath in H.
      assert (Hocc : occurs "/" (dir ++ String "/" name) = true).
      { clear. induction dir as [| c dir IH]; cbn; [reflexivity |].
        rewrite IH. apply orb_true_r. }
      rewrite <- Hpath in Hocc. congruence.
    + intros _. now exists dir.
Qed.

(** A path that ends in a slash, and a path without one. *)
Example download_name_edge_cases :
  pop (split "/" "models/benchy/") = Some "" /\
  pop (split "/" "benchy.stl") = Some "benchy.stl" /\
  pop (split "/" "") = Some "" /\
  split "/" "/a//b" = [""; "a"; ""; "b"].
Proof. repeat split. Qed.
